(** * check-ata.js: a shallow embedding and its properties

    The script [src/check-ata.js] walks a fixed list of token-account
    addresses, asks a ledger RPC node whether each one exists, decodes the
    ones that do, and prints a block of text per address.

    The two npm packages it calls ([@solana/web3.js], [@solana/spl-token])
    and the remote ledger are not part of the repository: they are gathered
    in a record [Platform], and every statement below quantifies over it.
    The script itself is embedded in a small monad that threads the state
    of the outside world, records what the script does (queries issued,
    lines printed) and propagates JavaScript exceptions. *)

From Stdlib Require Import String Ascii List PeanoNat NArith Lia.
From Stdlib Require Import DecimalString DecimalNat DecimalN.
Import ListNotations.
Local Open Scope string_scope.
Local Open Scope list_scope.

Set Implicit Arguments.

(** ** JavaScript values the script handles *)

(** What a [throw] carries.  Both packages throw [Error] objects; the
    script only ever reads their [message] property. *)
Record JsError : Type := mkError { message : string }.

(** The completion of an expression: a value, or a thrown error. *)
Inductive outcome (A : Type) : Type :=
| Ok (a : A)
| Throw (e : JsError).
Arguments Ok {A} a.
Arguments Throw {A} e.

(** [Number.prototype.toString] on the loop counter and
    [BigInt.prototype.toString] on a token amount: plain decimal. *)
Definition nat_toString (n : nat) : string :=
  NilEmpty.string_of_uint (Nat.to_uint n).

Definition bigint_toString (n : N) : string :=
  NilEmpty.string_of_uint (N.to_uint n).

(** The inverse reading of a decimal numeral, used to state that nothing is
    lost when an amount is printed. *)
Definition bigint_parse (s : string) : option N :=
  option_map N.of_uint (NilEmpty.uint_of_string s).

(** ** The platform: packages and ledger *)

(** The decoded token account returned by [getAccount]; only the three
    fields the script prints are kept. *)
Record Account (PK : Type) : Type := mkAccount {
  mint : PK;
  owner : PK;
  amount : N
}.

Record Platform : Type := mkPlatform {
  PublicKey : Type;
  Connection : Type;
  AccountInfo : Type;
  (** state of everything outside the script: the node, the network *)
  World : Type;
  (** [new PublicKey(s)]: throws on input that is not a base-58 key *)
  new_PublicKey : string -> outcome PublicKey;
  (** [pk.toString()] *)
  toString : PublicKey -> string;
  (** [new Connection(endpoint, commitment)] *)
  new_Connection : string -> string -> outcome Connection;
  (** [await connection.getAccountInfo(pk)]: [null] when the address holds
      no account *)
  getAccountInfo :
    Connection -> PublicKey -> World -> World * outcome (option AccountInfo);
  (** [await getAccount(connection, pk)]: fetches and decodes *)
  getAccount :
    Connection -> PublicKey -> World -> World * outcome (Account PublicKey)
}.

(** ** A test ledger

    A small concrete platform, used to run the script on examples.  Keys
    are their own text; a string constructs as a key when it is not empty
    and uses base-58 digits only.  The world counts the RPC calls made so
    far.  The ledger knows a handful of addresses by name. *)

Module Mock.

Definition in_range (lo hi n : nat) : bool := Nat.leb lo n && Nat.leb n hi.

Definition is_base58 (ch : ascii) : bool :=
  let n := nat_of_ascii ch in
  in_range 49 57 n                                        (* 1-9 *)
  || (in_range 65 90 n && negb (Nat.eqb n 73) && negb (Nat.eqb n 79))
                                                          (* A-Z but I, O *)
  || (in_range 97 122 n && negb (Nat.eqb n 108)).         (* a-z but l *)

Fixpoint all_base58 (s : string) : bool :=
  match s with
  | EmptyString => true
  | String ch s' => is_base58 ch && all_base58 s'
  end.

Definition new_PublicKey (s : string) : outcome string :=
  match s with
  | EmptyString => Throw (mkError "Invalid public key input")
  | _ => if all_base58 s then Ok s
         else Throw (mkError "Non-base58 character")
  end.

Definition getAccountInfo (_ : unit) (pk : string) (calls : nat)
  : nat * outcome (option unit) :=
  (S calls,
   if String.eqb pk "Missing2" then Ok None
   else if String.eqb pk "Down4" then Throw (mkError "fetch failed")
   else Ok (Some tt)).

(** The one token account of the test ledger; its amount is the largest
    64-bit value, beyond what a JavaScript number holds exactly. *)
Definition test_account : Account string :=
  mkAccount "Mint9" "Owner8" 18446744073709551615%N.

Definition getAccount (_ : unit) (pk : string) (calls : nat)
  : nat * outcome (Account string) :=
  (S calls,
   if String.eqb pk "Broken3"
   then Throw (mkError "TokenInvalidAccountOwnerError")
   else Ok test_account).

Definition platform : Platform :=
  mkPlatform new_PublicKey (fun pk => pk) (fun _ _ => Ok tt)
             getAccountInfo getAccount.

End Mock.

(** The scenario of the specification, with a fourth address whose
    existence query fails. *)
Definition scenario : list string := ["Found1"; "Missing2"; "Broken3"; "Down4"].

(** A string that is no key: the four characters base-58 leaves out. *)
Definition malformed : string := "0OIl".

(** A platform whose [Connection] constructor checks its endpoint the way
    a URL-validating client does: the text must open with [http:] or
    [https:].  Everything else is the test ledger. *)
Definition strict_new_Connection (endpoint commitment : string) : outcome unit :=
  if orb (prefix "http:" endpoint) (prefix "https:" endpoint) then Ok tt
  else Throw (mkError "Endpoint URL must start with `http:` or `https:`.").

Definition strict_platform : Platform :=
  mkPlatform Mock.new_PublicKey (fun pk => pk) strict_new_Connection
             Mock.getAccountInfo Mock.getAccount.

(** A ledger whose node is unreachable for the very first call and whose
    accounts never decode; both failures carry the same message. *)
Definition flaky_getAccountInfo (_ : unit) (pk : string) (calls : nat)
  : nat * outcome (option unit) :=
  (S calls,
   match calls with
   | 0 => Throw (mkError "fetch failed")
   | _ => Ok (Some tt)
   end).

Definition flaky_getAccount (_ : unit) (pk : string) (calls : nat)
  : nat * outcome (Account string) :=
  (S calls, Throw (mkError "fetch failed")).

Definition flaky_platform : Platform :=
  mkPlatform Mock.new_PublicKey (fun pk => pk) (fun _ _ => Ok tt)
             flaky_getAccountInfo flaky_getAccount.

(** Decimal digits, as [toString] prints numbers. *)
Definition is_digit (ch : ascii) : bool :=
  let n := nat_of_ascii ch in Nat.leb 48 n && Nat.leb n 57.

Fixpoint all_digits (s : string) : bool :=
  match s with
  | EmptyString => true
  | String ch s' => is_digit ch && all_digits s'
  end.

(** ** Observable behaviour *)

Section Script.

Variable P : Platform.

#[local] Abbreviation PK := (PublicKey P).

(** What the script does, in the order it does it.  A query event stands
    for the whole [await]: the call and the answer it resumed with. *)
Inductive Event : Type :=
| EvGetAccountInfo (pk : PK) (answer : outcome (option (AccountInfo P)))
| EvGetAccount (pk : PK) (answer : outcome (Account PK))
| EvLog (line : string)
| EvError (e : JsError)
| EvUncaught (e : JsError).

(** One run of a piece of script: the world afterwards, what happened, and
    how it completed. *)
Record Run (A : Type) : Type := mkRun {
  final : World P;
  trace : list Event;
  value : outcome A
}.

Definition M (A : Type) : Type := World P -> Run A.

Definition ret {A} (a : A) : M A :=
  fun w => mkRun w [] (Ok a).

Definition bind {A B} (m : M A) (k : A -> M B) : M B :=
  fun w =>
    let r := m w in
    match value r with
    | Ok a => let r' := k a (final r) in
              mkRun (final r') (trace r ++ trace r') (value r')
    | Throw e => mkRun (final r) (trace r) (Throw e)
    end.

(** [try { m } catch (error) { h error }] *)
Definition try_catch {A} (m : M A) (h : JsError -> M A) : M A :=
  fun w =>
    let r := m w in
    match value r with
    | Ok a => r
    | Throw e => let r' := h e (final r) in
                 mkRun (final r') (trace r ++ trace r') (value r')
    end.

Definition lift {A} (o : outcome A) : M A :=
  fun w => mkRun w [] o.

Definition console_log (line : string) : M unit :=
  fun w => mkRun w [EvLog line] (Ok tt).

Definition await_getAccountInfo (c : Connection P) (pk : PK)
  : M (option (AccountInfo P)) :=
  fun w => let (w', a) := getAccountInfo P c pk w in
           mkRun w' [EvGetAccountInfo pk a] a.

Definition await_getAccount (c : Connection P) (pk : PK) : M (Account PK) :=
  fun w => let (w', a) := getAccount P c pk w in
           mkRun w' [EvGetAccount pk a] a.

Notation "x <- m ;; k" := (bind m (fun x => k))
  (at level 61, m at next level, right associativity).
Notation "m ;; k" := (bind m (fun _ => k))
  (at level 61, right associativity).

(** ** The script *)

Definition ENDPOINT : string :=
  "[https://api.devnet.solana.com](https://api.devnet.solana.com)".

Definition ATA_ADDRESSES : list string :=
  [ "ASkpsRKwGKbUmmMrdknqnHVrmxsU8Ws6qeX5iE6AUERK";
    "73weDmPbP1pjZyshM47xiUV6pSadjoZPEtHeczAmNE7P";
    "HkuaPeSMog2jbGMYm7vjPFSaheM69PS1VXoioTp25sxS" ].

Definition line_header : string := "🔍 Проверка Associated Token Accounts...".

Definition line_found (i : nat) (ata : PK) : string :=
  "✅ ATA " ++ nat_toString (i + 1) ++ ": " ++ toString P ata.

Definition line_mint (t : Account PK) : string :=
  "   Mint: " ++ toString P (mint t).

Definition line_balance (t : Account PK) : string :=
  "   Balance: " ++ bigint_toString (amount t).

Definition line_owner (t : Account PK) : string :=
  "   Owner: " ++ toString P (owner t).

Definition line_not_found (i : nat) (ata : PK) : string :=
  "❌ ATA " ++ nat_toString (i + 1) ++ ": " ++ toString P ata ++ " - не найден".

Definition line_error (i : nat) (ata : PK) (error : JsError) : string :=
  "⚠️ ATA " ++ nat_toString (i + 1) ++ ": " ++ toString P ata
    ++ " - ошибка: " ++ message error.

(** Lines 20-36: the [try]/[catch] statement and the separator that follows
    it, for the key [ata] built from [ATA_ADDRESSES[i]]. *)
Definition inspect (connection : Connection P) (i : nat) (ata : PK) : M unit :=
  try_catch
    (accountInfo <- await_getAccountInfo connection ata ;;
     match accountInfo with
     | Some _ =>
         tokenAccount <- await_getAccount connection ata ;;
         console_log (line_found i ata) ;;
         console_log (line_mint tokenAccount) ;;
         console_log (line_balance tokenAccount) ;;
         console_log (line_owner tokenAccount)
     | None =>
         console_log (line_not_found i ata)
     end)
    (fun error => console_log (line_error i ata error)) ;;
  console_log EmptyString.

(** Lines 17-37: [for (let i = 0; i < ids.length; i++)].  The second
    argument is the part of the array not yet visited, [ids.slice(i)]. *)
Fixpoint for_loop (connection : Connection P) (i : nat) (ids : list string)
  : M unit :=
  match ids with
  | [] => ret tt
  | id :: ids' =>
      ata <- lift (new_PublicKey P id) ;;
      inspect connection i ata ;;
      for_loop connection (S i) ids'
  end.

(** Lines 14-38, over an arbitrary address list. *)
Definition checkATA (connection : Connection P) (ids : list string) : M unit :=
  console_log line_header ;;
  for_loop connection 0 ids.

(** The whole module, as Node runs it.  An exception thrown while the
    module body is evaluated (line 6) is uncaught: Node reports it and
    exits with status 1.  A rejection of the promise [checkATA()] is
    handled by [.catch(console.error)] (line 40); the handled promise
    settles, the event loop drains and Node exits with status 0. *)
Record Process : Type := mkProcess {
  p_final : World P;
  p_trace : list Event;
  exit_code : nat
}.

Definition main (ids : list string) (w : World P) : Process :=
  match new_Connection P ENDPOINT "confirmed" with
  | Throw e => mkProcess w [EvUncaught e] 1
  | Ok connection =>
      let r := checkATA connection ids w in
      match value r with
      | Ok _ => mkProcess (final r) (trace r) 0
      | Throw e => mkProcess (final r) (trace r ++ [EvError e]) 0
      end
  end.

(** ** Reading a trace *)

(** The lines printed with [console.log], in order. *)
Definition logs (t : list Event) : list string :=
  flat_map (fun ev => match ev with EvLog l => [l] | _ => [] end) t.

(** The addresses looked up with [getAccountInfo], in order. *)
Definition queried (t : list Event) : list PK :=
  flat_map (fun ev => match ev with EvGetAccountInfo pk _ => [pk] | _ => [] end) t.

(** The addresses handed to [getAccount], in order. *)
Definition decoded (t : list Event) : list PK :=
  flat_map (fun ev => match ev with EvGetAccount pk _ => [pk] | _ => [] end) t.

(** The errors thrown by either query, in order. *)
Definition faults (t : list Event) : list JsError :=
  flat_map (fun ev => match ev with
                      | EvGetAccountInfo _ (Throw e) => [e]
                      | EvGetAccount _ (Throw e) => [e]
                      | _ => []
                      end) t.

(** Kinds of printed line, recognised by the fixed text they open with. *)
Definition is_mint_line (l : string) : bool := prefix "   Mint: " l.
Definition is_balance_line (l : string) : bool := prefix "   Balance: " l.
Definition is_owner_line (l : string) : bool := prefix "   Owner: " l.
Definition is_detail_line (l : string) : bool :=
  is_mint_line l || is_balance_line l || is_owner_line l.
Definition is_blank (l : string) : bool := String.eqb l EmptyString.

(** [needle] occurs somewhere inside [hay]. *)
Definition occurs_in (needle hay : string) : Prop :=
  exists before after, hay = (before ++ needle ++ after)%string.

(** ** The specification's vocabulary

    The script has no value for the outcome of one address; the
    specification names three.  [inspection] follows the specification's
    algorithm (look up; if present, decode), [render] its description of
    the printed block. *)

Inductive InspectionResult : Type :=
| Found (record : Account PK)
| NotFound
| Error (msg : string).

Definition inspection (c : Connection P) (ata : PK) (w : World P)
  : World P * InspectionResult :=
  match getAccountInfo P c ata w with
  | (w1, Ok None) => (w1, NotFound)
  | (w1, Ok (Some _)) =>
      match getAccount P c ata w1 with
      | (w2, Ok t) => (w2, Found t)
      | (w2, Throw e) => (w2, Error (message e))
      end
  | (w1, Throw e) => (w1, Error (message e))
  end.

Definition render (i : nat) (ata : PK) (r : InspectionResult) : list string :=
  match r with
  | Found t => [line_found i ata; line_mint t; line_balance t; line_owner t]
  | NotFound => [line_not_found i ata]
  | Error msg => [line_error i ata (mkError msg)]
  end.

(** One entry per address worked on: its position, its key, its result. *)
Record Inspected : Type := mkInspected {
  position : nat;
  key : PK;
  result : InspectionResult
}.

Fixpoint inspections (c : Connection P) (i : nat) (pks : list PK) (w : World P)
  : list Inspected :=
  match pks with
  | [] => []
  | pk :: pks' =>
      let (w', r) := inspection c pk w in
      mkInspected i pk r :: inspections c (S i) pks' w'
  end.

(** A result block: the rendered result, then the blank separator. *)
Definition render_block (x : Inspected) : list string :=
  render (position x) (key x) (result x) ++ [EmptyString].

Definition error_messages (l : list Inspected) : list string :=
  flat_map (fun x => match result x with Error m => [m] | _ => [] end) l.

(** [id] constructs as the key [pk]. *)
Definition parses (id : string) (pk : PK) : Prop :=
  new_PublicKey P id = Ok pk.

(** The keys of the longest prefix of [ids] whose members all construct. *)
Fixpoint parsed_prefix (ids : list string) : list PK :=
  match ids with
  | [] => []
  | id :: ids' =>
      match new_PublicKey P id with
      | Ok pk => pk :: parsed_prefix ids'
      | Throw _ => []
      end
  end.

(** The error of the first member of [ids] that does not construct. *)
Fixpoint first_malformed (ids : list string) : option JsError :=
  match ids with
  | [] => None
  | id :: ids' =>
      match new_PublicKey P id with
      | Ok _ => first_malformed ids'
      | Throw e => Some e
      end
  end.

(** The shape of the events belonging to one address: the existence query
    first; the decode query next, and only when the existence query
    answered with an account; printed lines last. *)
Inductive sequential_block (pk : PK) : list Event -> Prop :=
| sb_absent lines :
    sequential_block pk
      (EvGetAccountInfo pk (Ok None) :: map EvLog lines)
| sb_unreachable e lines :
    sequential_block pk
      (EvGetAccountInfo pk (Throw e) :: map EvLog lines)
| sb_present info answer lines :
    sequential_block pk
      (EvGetAccountInfo pk (Ok (Some info)) :: EvGetAccount pk answer
         :: map EvLog lines).


(** ** Properties, as the specification words them *)

(** Each address of the list is worked on exactly once and in list order:
    there is one result per member, numbered in list order; the result at
    a position belongs to the key of the member at that position; those
    keys are exactly the addresses looked up, in that order; each result
    is the one the two-stage lookup gives; and the printed output is the
    header followed by the result blocks in that order. *)
Definition processed_once_in_order
  (c : Connection P) (ids : list string) (w : World P) : Prop :=
  let r := checkATA c ids w in
  exists results : list Inspected,
    length results = length ids /\
    map position results = seq 0 (length ids) /\
    Forall2 (fun id x => parses id (key x)) ids results /\
    queried (trace r) = map key results /\
    results = inspections c 0 (map key results) w /\
    logs (trace r) = line_header :: flat_map render_block results.

(** No fault ends the loop early: the function completes normally and
    every member of the list that names a key has that key looked up. *)
Definition no_fault_aborts
  (c : Connection P) (ids : list string) (w : World P) : Prop :=
  let r := checkATA c ids w in
  value r = Ok tt /\
  forall id pk, In id ids -> parses id pk -> In pk (queried (trace r)).

(** A fault outside the per-address [try]: the connection cannot be built,
    or some member of the list does not construct as a key. *)
Definition outer_fault (ids : list string) : Prop :=
  (exists e, new_Connection P ENDPOINT "confirmed" = Throw e) \/
  (exists e, first_malformed ids = Some e).

Definition exit_reflects_outer_fault (ids : list string) (w : World P) : Prop :=
  exit_code (main ids w) <> 0 <-> outer_fault ids.

(** ** Further readings of a trace *)

(** The addresses whose existence query answered with an account. *)
Definition present (t : list Event) : list PK :=
  flat_map (fun ev => match ev with
                      | EvGetAccountInfo pk (Ok (Some _)) => [pk]
                      | _ => []
                      end) t.

(** The token accounts that decoded, in order. *)
Definition accounts (t : list Event) : list (Account PK) :=
  flat_map (fun ev => match ev with
                      | EvGetAccount _ (Ok a) => [a]
                      | _ => []
                      end) t.

(** The errors handed to [console.error], in order. *)
Definition reported (t : list Event) : list JsError :=
  flat_map (fun ev => match ev with EvError e => [e] | _ => [] end) t.

Definition is_header (l : string) : bool := String.eqb l line_header.

(** Which of the three outcomes a result is. *)
Variant Kind : Type := KFound | KNotFound | KError.

Definition kind (r : InspectionResult) : Kind :=
  match r with
  | Found _ => KFound
  | NotFound => KNotFound
  | Error _ => KError
  end.

(** The results the addresses would get if each were looked up on its
    own, in the world [w0], numbered from [i]. *)
Fixpoint inspected_alone (c : Connection P) (i : nat) (pks : list PK)
  (w0 : World P) : list Inspected :=
  match pks with
  | [] => []
  | pk :: pks' =>
      mkInspected i pk (snd (inspection c pk w0))
        :: inspected_alone c (S i) pks' w0
  end.

(** The ledger answers a query about an address the same way whatever
    happened before. *)
Definition stateless_ledger (c : Connection P) : Prop :=
  (forall pk w w',
     snd (getAccountInfo P c pk w) = snd (getAccountInfo P c pk w')) /\
  (forall pk w w',
     snd (getAccount P c pk w) = snd (getAccount P c pk w')).

(** ** Strings *)

Lemma append_assoc (a b c : string) :
  ((a ++ b) ++ c = a ++ (b ++ c))%string.
Proof.
  induction a as [|ch a IH]; simpl.
  - reflexivity.
  - now rewrite IH.
Qed.

Lemma prefix_append (p s : string) : prefix p (p ++ s) = true.
Proof.
  induction p as [|ch p IH]; simpl.
  - now destruct s.
  - destruct (ascii_dec ch ch) as [_|ne]; [exact IH | now elim ne].
Qed.

Lemma occurs_in_middle (a needle b : string) :
  occurs_in needle (a ++ needle ++ b).
Proof. now exists a, b. Qed.

Lemma occurs_in_append_l (a needle hay : string) :
  occurs_in needle hay -> occurs_in needle (a ++ hay).
Proof.
  intros (x & y & ->). exists (a ++ x)%string, y.
  now rewrite append_assoc.
Qed.

Lemma occurs_in_end (a needle : string) : occurs_in needle (a ++ needle).
Proof.
  exists a, EmptyString.
  f_equal. induction needle as [|ch n IH]; simpl; [reflexivity | now rewrite <- IH].
Qed.

Lemma occurs_in_start (needle b : string) : occurs_in needle (needle ++ b).
Proof. now exists EmptyString, b. Qed.

Lemma occurs_in_refl (needle : string) : occurs_in needle needle.
Proof.
  destruct (occurs_in_end EmptyString needle) as (x & y & E).
  now exists x, y.
Qed.

Ltac find_substring :=
  first [ apply occurs_in_refl
        | apply occurs_in_start
        | apply occurs_in_end
        | apply occurs_in_append_l; find_substring ].

Lemma bigint_roundtrip (n : N) : bigint_parse (bigint_toString n) = Some n.
Proof.
  unfold bigint_parse, bigint_toString.
  now rewrite NilEmpty.usu; simpl; rewrite Unsigned.of_to.
Qed.

Lemma bigint_toString_inj (m n : N) :
  bigint_toString m = bigint_toString n -> m = n.
Proof.
  intros E. apply (f_equal bigint_parse) in E.
  rewrite !bigint_roundtrip in E. now injection E.
Qed.

(** ** Sequencing *)

Lemma bind_ok A B (m : M A) (k : A -> M B) w a :
  value (m w) = Ok a ->
  bind m k w =
    let r := k a (final (m w)) in
    mkRun (final r) (trace (m w) ++ trace r) (value r).
Proof. unfold bind. now intros ->. Qed.

Lemma bind_throw A B (m : M A) (k : A -> M B) w e :
  value (m w) = Throw e ->
  bind m k w = mkRun (final (m w)) (trace (m w)) (Throw e).
Proof. unfold bind. now intros ->. Qed.

Lemma bind_ext A B (m : M A) (k k' : A -> M B) w :
  (forall a w', k a w' = k' a w') -> bind m k w = bind m k' w.
Proof. intros E. unfold bind. destruct (value (m w)); now rewrite ?E. Qed.

Lemma bind_assoc A B C (m : M A) (k : A -> M B) (h : B -> M C) w :
  bind (bind m k) h w = bind m (fun a => bind (k a) h) w.
Proof.
  unfold bind. destruct (value (m w)) as [a|e]; simpl; [|reflexivity].
  destruct (value (k a (final (m w)))) as [b|e]; simpl.
  - now rewrite app_assoc.
  - reflexivity.
Qed.

Lemma bind_ret_l A B (a : A) (k : A -> M B) w : bind (ret a) k w = k a w.
Proof. unfold bind, ret. simpl. now destruct (k a w). Qed.

(** ** One address *)

Section OneAddress.

Variable c : Connection P.
Variable i : nat.
Variable ata : PublicKey P.
Variable w : World P.

Lemma inspect_absent w1 :
  getAccountInfo P c ata w = (w1, Ok None) ->
  inspect c i ata w =
    mkRun w1 [EvGetAccountInfo ata (Ok None);
              EvLog (line_not_found i ata); EvLog EmptyString] (Ok tt).
Proof.
  intros H.
  unfold inspect, bind, try_catch, await_getAccountInfo. now rewrite H.
Qed.

Lemma inspect_unreachable w1 e :
  getAccountInfo P c ata w = (w1, Throw e) ->
  inspect c i ata w =
    mkRun w1 [EvGetAccountInfo ata (Throw e);
              EvLog (line_error i ata e); EvLog EmptyString] (Ok tt).
Proof.
  intros H.
  unfold inspect, bind, try_catch, await_getAccountInfo. now rewrite H.
Qed.

Lemma inspect_found w1 info w2 t :
  getAccountInfo P c ata w = (w1, Ok (Some info)) ->
  getAccount P c ata w1 = (w2, Ok t) ->
  inspect c i ata w =
    mkRun w2 [EvGetAccountInfo ata (Ok (Some info)); EvGetAccount ata (Ok t);
              EvLog (line_found i ata); EvLog (line_mint t);
              EvLog (line_balance t); EvLog (line_owner t);
              EvLog EmptyString] (Ok tt).
Proof.
  intros H1 H2.
  unfold inspect, bind, try_catch, await_getAccountInfo, await_getAccount.
  rewrite H1; simpl. now rewrite H2.
Qed.

Lemma inspect_undecodable w1 info w2 e :
  getAccountInfo P c ata w = (w1, Ok (Some info)) ->
  getAccount P c ata w1 = (w2, Throw e) ->
  inspect c i ata w =
    mkRun w2 [EvGetAccountInfo ata (Ok (Some info)); EvGetAccount ata (Throw e);
              EvLog (line_error i ata e); EvLog EmptyString] (Ok tt).
Proof.
  intros H1 H2.
  unfold inspect, bind, try_catch, await_getAccountInfo, await_getAccount.
  rewrite H1; simpl. now rewrite H2.
Qed.

(** The four ways one address can go. *)
Variant inspect_cases : Prop :=
| case_absent w1 (_ : getAccountInfo P c ata w = (w1, Ok None))
| case_unreachable w1 e (_ : getAccountInfo P c ata w = (w1, Throw e))
| case_found w1 info w2 t
    (_ : getAccountInfo P c ata w = (w1, Ok (Some info)))
    (_ : getAccount P c ata w1 = (w2, Ok t))
| case_undecodable w1 info w2 e
    (_ : getAccountInfo P c ata w = (w1, Ok (Some info)))
    (_ : getAccount P c ata w1 = (w2, Throw e)).

Lemma inspect_casesP : inspect_cases.
Proof.
  destruct (getAccountInfo P c ata w) as [w1 [[info|]|e]] eqn:H1.
  - destruct (getAccount P c ata w1) as [w2 [t|e]] eqn:H2.
    + eapply case_found; eauto.
    + eapply case_undecodable; eauto.
  - eapply case_absent; eauto.
  - eapply case_unreachable; eauto.
Qed.

(** The [try] statement never lets an error out. *)
Lemma inspect_value : value (inspect c i ata w) = Ok tt.
Proof.
  destruct inspect_casesP as [w1 H|w1 e H|w1 info w2 t H1 H2|w1 info w2 e H1 H2].
  - now rewrite (inspect_absent H).
  - now rewrite (inspect_unreachable H).
  - now rewrite (inspect_found H1 H2).
  - now rewrite (inspect_undecodable H1 H2).
Qed.

Lemma inspect_final : final (inspect c i ata w) = fst (inspection c ata w).
Proof.
  unfold inspection.
  destruct inspect_casesP as [w1 H|w1 e H|w1 info w2 t H1 H2|w1 info w2 e H1 H2].
  - now rewrite (inspect_absent H), H.
  - now rewrite (inspect_unreachable H), H.
  - now rewrite (inspect_found H1 H2), H1, H2.
  - now rewrite (inspect_undecodable H1 H2), H1, H2.
Qed.

Lemma inspect_logs :
  logs (trace (inspect c i ata w)) =
  render_block (mkInspected i ata (snd (inspection c ata w))).
Proof.
  unfold inspection, render_block.
  destruct inspect_casesP as [w1 H|w1 e H|w1 info w2 t H1 H2|w1 info w2 e H1 H2].
  - now rewrite (inspect_absent H), H.
  - rewrite (inspect_unreachable H), H. now destruct e.
  - now rewrite (inspect_found H1 H2), H1, H2.
  - rewrite (inspect_undecodable H1 H2), H1, H2. now destruct e.
Qed.

Lemma inspect_queried : queried (trace (inspect c i ata w)) = [ata].
Proof.
  destruct inspect_casesP as [w1 H|w1 e H|w1 info w2 t H1 H2|w1 info w2 e H1 H2].
  - now rewrite (inspect_absent H).
  - now rewrite (inspect_unreachable H).
  - now rewrite (inspect_found H1 H2).
  - now rewrite (inspect_undecodable H1 H2).
Qed.

Lemma inspect_faults :
  map message (faults (trace (inspect c i ata w))) =
  error_messages [mkInspected i ata (snd (inspection c ata w))].
Proof.
  unfold inspection, error_messages.
  destruct inspect_casesP as [w1 H|w1 e H|w1 info w2 t H1 H2|w1 info w2 e H1 H2].
  - now rewrite (inspect_absent H), H.
  - now rewrite (inspect_unreachable H), H.
  - now rewrite (inspect_found H1 H2), H1, H2.
  - now rewrite (inspect_undecodable H1 H2), H1, H2.
Qed.

Lemma inspect_sequential : sequential_block ata (trace (inspect c i ata w)).
Proof.
  destruct inspect_casesP as [w1 H|w1 e H|w1 info w2 t H1 H2|w1 info w2 e H1 H2].
  - rewrite (inspect_absent H). apply (sb_absent ata [_; _]).
  - rewrite (inspect_unreachable H). apply (sb_unreachable ata e [_; _]).
  - rewrite (inspect_found H1 H2). apply (sb_present ata info (Ok t) [_; _; _; _; _]).
  - rewrite (inspect_undecodable H1 H2). apply (sb_present ata info (Throw e) [_; _]).
Qed.

End OneAddress.

(** ** Kinds of line *)

Lemma mint_line_is_mint t : is_mint_line (line_mint t) = true.
Proof. apply prefix_append. Qed.

Lemma balance_line_is_balance t : is_balance_line (line_balance t) = true.
Proof. apply prefix_append. Qed.

Lemma owner_line_is_owner t : is_owner_line (line_owner t) = true.
Proof. apply prefix_append. Qed.

Lemma mint_line_only_mint t :
  is_balance_line (line_mint t) = false /\ is_owner_line (line_mint t) = false.
Proof. now split. Qed.

Lemma balance_line_only_balance t :
  is_mint_line (line_balance t) = false /\ is_owner_line (line_balance t) = false.
Proof. now split. Qed.

Lemma owner_line_only_owner t :
  is_mint_line (line_owner t) = false /\ is_balance_line (line_owner t) = false.
Proof. now split. Qed.

Lemma found_line_kind i ata :
  is_mint_line (line_found i ata) = false /\
  is_balance_line (line_found i ata) = false /\
  is_owner_line (line_found i ata) = false.
Proof. now repeat split. Qed.

Lemma not_found_line_no_detail i ata :
  is_detail_line (line_not_found i ata) = false.
Proof. reflexivity. Qed.

Lemma error_line_no_detail i ata e :
  is_detail_line (line_error i ata e) = false.
Proof. reflexivity. Qed.

Lemma render_not_blank i ata r : filter is_blank (render i ata r) = [].
Proof. now destruct r. Qed.

(** ** The loop *)

Section Loop.

Variable c : Connection P.

Lemma for_loop_cons_ok i id ids ata w :
  parses id ata ->
  for_loop c i (id :: ids) w =
    let r1 := inspect c i ata w in
    let r2 := for_loop c (S i) ids (final r1) in
    mkRun (final r2) (trace r1 ++ trace r2) (value r2).
Proof.
  intros H. cbn [for_loop].
  rewrite (@bind_ok _ _ _ _ _ ata) by exact H.
  rewrite (@bind_ok _ _ _ _ _ tt) by apply inspect_value.
  reflexivity.
Qed.

Lemma for_loop_cons_throw i id ids e w :
  new_PublicKey P id = Throw e ->
  for_loop c i (id :: ids) w = mkRun w [] (Throw e).
Proof.
  intros H. cbn [for_loop].
  now rewrite (@bind_throw _ _ _ _ _ e) by exact H.
Qed.

Lemma inspections_length i pks w :
  length (inspections c i pks w) = length pks.
Proof.
  revert i w. induction pks as [|pk pks IH]; intros i w; simpl.
  - reflexivity.
  - destruct (inspection c pk w) as [w' r]. simpl. now rewrite IH.
Qed.

Lemma inspections_position i pks w :
  map position (inspections c i pks w) = seq i (length pks).
Proof.
  revert i w. induction pks as [|pk pks IH]; intros i w; simpl.
  - reflexivity.
  - destruct (inspection c pk w) as [w' r]. simpl. now rewrite IH.
Qed.

Lemma inspections_key i pks w :
  map key (inspections c i pks w) = pks.
Proof.
  revert i w. induction pks as [|pk pks IH]; intros i w; simpl.
  - reflexivity.
  - destruct (inspection c pk w) as [w' r]. simpl. now rewrite IH.
Qed.

Lemma inspections_parse i ids pks w :
  Forall2 parses ids pks ->
  Forall2 (fun id x => parses id (key x)) ids (inspections c i pks w).
Proof.
  intros F. revert i w.
  induction F as [|id pk ids pks H _ IH]; intros i w; simpl.
  - constructor.
  - destruct (inspection c pk w) as [w' r]. constructor; [exact H | apply IH].
Qed.

Lemma inspections_cons i pk pks w :
  inspections c i (pk :: pks) w =
  mkInspected i pk (snd (inspection c pk w))
    :: inspections c (S i) pks (fst (inspection c pk w)).
Proof. simpl. now destruct (inspection c pk w). Qed.

Lemma parsed_prefix_all ids pks :
  Forall2 parses ids pks -> parsed_prefix ids = pks.
Proof.
  induction 1 as [|id pk ids pks H _ IH]; simpl.
  - reflexivity.
  - unfold parses in H. now rewrite H, IH.
Qed.

Lemma first_malformed_all ids pks :
  Forall2 parses ids pks -> first_malformed ids = None.
Proof.
  induction 1 as [|id pk ids pks H _ IH]; simpl.
  - reflexivity.
  - unfold parses in H. now rewrite H.
Qed.

Lemma parses_all ids :
  (forall id, In id ids -> exists pk, parses id pk) ->
  exists pks, Forall2 parses ids pks.
Proof.
  induction ids as [|id ids IH]; intros H.
  - now exists [].
  - destruct (H id (or_introl eq_refl)) as [pk Hpk].
    destruct IH as [pks Hpks]; [intros x Hx; apply H; now right|].
    exists (pk :: pks). now constructor.
Qed.

(** How the loop completes: normally, unless some member of the list does
    not construct, in which case with that member's error. *)
Lemma for_loop_value i ids w :
  value (for_loop c i ids w) =
  match first_malformed ids with None => Ok tt | Some e => Throw e end.
Proof.
  revert i w. induction ids as [|id ids IH]; intros i w.
  - reflexivity.
  - simpl first_malformed. destruct (new_PublicKey P id) as [ata|e] eqn:H.
    + rewrite (for_loop_cons_ok _ _ _ H). simpl. apply IH.
    + now rewrite (for_loop_cons_throw _ _ _ _ H).
Qed.

Lemma for_loop_queried i ids w :
  queried (trace (for_loop c i ids w)) = parsed_prefix ids.
Proof.
  revert i w. induction ids as [|id ids IH]; intros i w.
  - reflexivity.
  - simpl parsed_prefix. destruct (new_PublicKey P id) as [ata|e] eqn:H.
    + rewrite (for_loop_cons_ok _ _ _ H). simpl.
      unfold queried at 1. rewrite flat_map_app.
      fold (queried (trace (inspect c i ata w))).
      rewrite inspect_queried. simpl. f_equal. apply IH.
    + now rewrite (for_loop_cons_throw _ _ _ _ H).
Qed.

Lemma for_loop_logs i ids w :
  logs (trace (for_loop c i ids w)) =
  flat_map render_block (inspections c i (parsed_prefix ids) w).
Proof.
  revert i w. induction ids as [|id ids IH]; intros i w.
  - reflexivity.
  - simpl parsed_prefix. destruct (new_PublicKey P id) as [ata|e] eqn:H.
    + rewrite (for_loop_cons_ok _ _ _ H), inspections_cons. simpl.
      unfold logs at 1. rewrite flat_map_app.
      fold (logs (trace (inspect c i ata w))).
      rewrite inspect_logs, inspect_final. f_equal. apply IH.
    + now rewrite (for_loop_cons_throw _ _ _ _ H).
Qed.

Lemma for_loop_faults i ids w :
  map message (faults (trace (for_loop c i ids w))) =
  error_messages (inspections c i (parsed_prefix ids) w).
Proof.
  revert i w. induction ids as [|id ids IH]; intros i w.
  - reflexivity.
  - simpl parsed_prefix. destruct (new_PublicKey P id) as [ata|e] eqn:H.
    + rewrite (for_loop_cons_ok _ _ _ H), inspections_cons. simpl trace.
      unfold faults at 1. rewrite flat_map_app, map_app.
      fold (faults (trace (inspect c i ata w))).
      rewrite inspect_faults, inspect_final, IH.
      unfold error_messages. simpl. now rewrite app_nil_r.
    + now rewrite (for_loop_cons_throw _ _ _ _ H).
Qed.

Lemma for_loop_blocks i ids w :
  exists blocks,
    trace (for_loop c i ids w) = concat blocks /\
    Forall2 sequential_block (parsed_prefix ids) blocks.
Proof.
  revert i w. induction ids as [|id ids IH]; intros i w.
  - exists []. split; [reflexivity | constructor].
  - simpl parsed_prefix. destruct (new_PublicKey P id) as [ata|e] eqn:H.
    + rewrite (for_loop_cons_ok _ _ _ H). simpl.
      destruct (IH (S i) (final (inspect c i ata w))) as (bs & E & F).
      exists (trace (inspect c i ata w) :: bs). split.
      * simpl. now rewrite E.
      * constructor; [apply inspect_sequential | exact F].
    + rewrite (for_loop_cons_throw _ _ _ _ H).
      exists []. split; [reflexivity | constructor].
Qed.

(** A member that does not construct ends the loop where it stands: the
    run is the run over the members before it, completed by its error. *)
Lemma for_loop_stops i before pks id e after w :
  Forall2 parses before pks ->
  new_PublicKey P id = Throw e ->
  for_loop c i (before ++ id :: after) w =
    let r := for_loop c i before w in
    mkRun (final r) (trace r) (Throw e).
Proof.
  intros F H. revert i w.
  induction F as [|x pk before pks Hx _ IH]; intros i w.
  - simpl app. now rewrite (for_loop_cons_throw _ _ _ _ H).
  - rewrite <- app_comm_cons.
    rewrite !(for_loop_cons_ok _ _ _ Hx). cbn zeta. rewrite IH. reflexivity.
Qed.

(** The loop over a list cut in two is the loop over the first part,
    run to completion, and then the loop over the second part. *)
Lemma for_loop_app i before after w :
  for_loop c i (before ++ after) w =
  (for_loop c i before ;; for_loop c (i + length before) after) w.
Proof.
  revert i w. induction before as [|id before IH]; intros i w.
  - cbn [for_loop app length]. rewrite bind_ret_l. now rewrite Nat.add_0_r.
  - simpl app. cbn [for_loop]. rewrite bind_assoc.
    apply bind_ext. intros ata w1. rewrite bind_assoc.
    apply bind_ext. intros _ w2. rewrite IH.
    apply bind_ext. intros _ w3. cbn [length]. now rewrite Nat.add_succ_r.
Qed.

Lemma checkATA_unfold ids w :
  checkATA c ids w =
    let r := for_loop c 0 ids w in
    mkRun (final r) (EvLog line_header :: trace r) (value r).
Proof. reflexivity. Qed.

End Loop.

(** ** What the script guarantees *)

Lemma parses_functional id pk pk' : parses id pk -> parses id pk' -> pk = pk'.
Proof. unfold parses. intros H H'. rewrite H in H'. now injection H'. Qed.

Lemma parses_in ids pks id pk :
  Forall2 parses ids pks -> In id ids -> parses id pk -> In pk pks.
Proof.
  induction 1 as [|x y ids pks Hxy _ IH]; intros Hin Hp.
  - contradiction.
  - destruct Hin as [->|Hin].
    + left. exact (parses_functional Hxy Hp).
    + right. now apply IH.
Qed.

(** C1, as amended.  The process ends with a non-zero status exactly when
    building the connection (line 6, module level) throws.  Once the
    connection exists the status is zero whatever happens inside
    [checkATA]: when every address yields an error, and also when a
    member of the list does not construct as a key, since that rejection
    is handed to [console.error] by the handler of line 40. *)
Theorem exit_nonzero_iff_connection_throws (ids : list string) (w : World P) :
  exit_code (main ids w) <> 0 <->
  exists e, new_Connection P ENDPOINT "confirmed" = Throw e.
Proof.
  unfold main.
  destruct (new_Connection P ENDPOINT "confirmed") as [c|e].
  - split.
    + intros H. exfalso. apply H.
      now destruct (value (checkATA c ids w)).
    + intros [e H]. discriminate H.
  - split.
    + intros _. now exists e.
    + intros _. simpl. discriminate.
Qed.

(** C2, as amended.  When every member of the list constructs as a key,
    no fault raised by the existence query or by the decode query ends
    the loop: [checkATA] completes normally, every address is looked up,
    and each fault shows up as an [Error] result carrying its message,
    rendered in its place in the output. *)
Theorem query_faults_never_abort
  (c : Connection P) (ids : list string) (pks : list PK) (w : World P) :
  Forall2 parses ids pks ->
  no_fault_aborts c ids w /\
  queried (trace (checkATA c ids w)) = pks /\
  map message (faults (trace (checkATA c ids w))) =
    error_messages (inspections c 0 pks w) /\
  logs (trace (checkATA c ids w)) =
    line_header :: flat_map render_block (inspections c 0 pks w).
Proof.
  intros F.
  assert (Q : queried (trace (checkATA c ids w)) = pks).
  { rewrite checkATA_unfold. simpl.
    now rewrite for_loop_queried, (parsed_prefix_all F). }
  repeat split.
  - rewrite checkATA_unfold. simpl.
    now rewrite for_loop_value, (first_malformed_all F).
  - intros id pk Hin Hp. rewrite Q. exact (parses_in F Hin Hp).
  - exact Q.
  - rewrite checkATA_unfold. simpl.
    now rewrite for_loop_faults, (parsed_prefix_all F).
  - rewrite checkATA_unfold. simpl. f_equal.
    now rewrite for_loop_logs, (parsed_prefix_all F).
Qed.

(** C3, as amended.  For a list whose members all construct as keys, each
    address is worked on exactly once and in list order: one existence
    query and one result per member, and the result blocks are printed in
    the order of the list. *)
Theorem well_formed_list_processed_once_in_order
  (c : Connection P) (ids : list string) (w : World P) :
  (forall id, In id ids -> exists pk, parses id pk) ->
  processed_once_in_order c ids w.
Proof.
  intros H. destruct (parses_all ids H) as [pks F].
  exists (inspections c 0 pks w). repeat split.
  - rewrite inspections_length. symmetry. exact (Forall2_length F).
  - rewrite inspections_position. f_equal. symmetry. exact (Forall2_length F).
  - exact (inspections_parse c 0 w F).
  - rewrite inspections_key, checkATA_unfold. simpl.
    now rewrite for_loop_queried, (parsed_prefix_all F).
  - now rewrite inspections_key.
  - rewrite checkATA_unfold. simpl. f_equal.
    now rewrite for_loop_logs, (parsed_prefix_all F).
Qed.

(** C4.  When the ledger holds an account at the address and decoding
    succeeds, the block is the status line, the mint line, the balance
    line and the owner line, then the separator.  Each of the three
    detail lines occurs once and is its label followed by the field as
    the record prints it; the amount is printed in full decimal, and
    reading the digits back gives the amount again. *)
Theorem found_block_rendering
  (c : Connection P) (i : nat) (ata : PK) (w w1 w2 : World P)
  (info : AccountInfo P) (t : Account PK) :
  getAccountInfo P c ata w = (w1, Ok (Some info)) ->
  getAccount P c ata w1 = (w2, Ok t) ->
  let lines := logs (trace (inspect c i ata w)) in
  snd (inspection c ata w) = Found t /\
  lines = [ line_found i ata;
            ("   Mint: " ++ toString P (mint t))%string;
            ("   Balance: " ++ bigint_toString (amount t))%string;
            ("   Owner: " ++ toString P (owner t))%string;
            EmptyString ] /\
  filter is_mint_line lines = [line_mint t] /\
  filter is_balance_line lines = [line_balance t] /\
  filter is_owner_line lines = [line_owner t] /\
  bigint_parse (bigint_toString (amount t)) = Some (amount t).
Proof.
  intros H1 H2 lines. subst lines.
  rewrite (inspect_found _ i _ _ H1 H2). unfold inspection. rewrite H1, H2.
  destruct (found_line_kind i ata) as (F1 & F2 & F3).
  destruct (mint_line_only_mint t) as (M2 & M3).
  destruct (balance_line_only_balance t) as (B1 & B3).
  destruct (owner_line_only_owner t) as (O1 & O2).
  cbn [logs trace flat_map app filter snd].
  rewrite F1, F2, F3, M2, M3, B1, B3, O1, O2.
  rewrite mint_line_is_mint, balance_line_is_balance, owner_line_is_owner.
  repeat split. apply bigint_roundtrip.
Qed.

(** C5.  When the ledger holds no account at the address, the result is
    [NotFound]; the block is one line and the separator; the line carries
    the words for "not found" and the address, and no mint, balance or
    owner line is printed. *)
Theorem absent_block_rendering
  (c : Connection P) (i : nat) (ata : PK) (w w1 : World P) :
  getAccountInfo P c ata w = (w1, Ok None) ->
  let lines := logs (trace (inspect c i ata w)) in
  snd (inspection c ata w) = NotFound /\
  lines = [line_not_found i ata; EmptyString] /\
  occurs_in "не найден" (line_not_found i ata) /\
  occurs_in (toString P ata) (line_not_found i ata) /\
  filter is_detail_line lines = [] /\
  decoded (trace (inspect c i ata w)) = [].
Proof.
  intros H lines. subst lines.
  rewrite (inspect_absent _ i _ _ H). unfold inspection. rewrite H.
  repeat split.
  - unfold line_not_found. do 4 apply occurs_in_append_l.
    now exists " - "%string, EmptyString.
  - unfold line_not_found. find_substring.
Qed.

(** C6.  When the ledger holds an account at the address and the decode
    query throws, the block is one line and the separator; the line
    carries the address and the message of the thrown error, and no mint,
    balance or owner line is printed. *)
Theorem undecodable_block_rendering
  (c : Connection P) (i : nat) (ata : PK) (w w1 w2 : World P)
  (info : AccountInfo P) (e : JsError) :
  getAccountInfo P c ata w = (w1, Ok (Some info)) ->
  getAccount P c ata w1 = (w2, Throw e) ->
  let lines := logs (trace (inspect c i ata w)) in
  snd (inspection c ata w) = Error (message e) /\
  lines = [line_error i ata e; EmptyString] /\
  occurs_in (toString P ata) (line_error i ata e) /\
  occurs_in (message e) (line_error i ata e) /\
  filter is_detail_line lines = [].
Proof.
  intros H1 H2 lines. subst lines.
  rewrite (inspect_undecodable _ i _ _ H1 H2). unfold inspection. rewrite H1, H2.
  repeat split; unfold line_error; find_substring.
Qed.

(** The events of one address are its queries and its rendered result,
    followed by one empty line. *)
Lemma inspect_rendered_then_separator
  (c : Connection P) (i : nat) (ata : PK) (w : World P) :
  exists rendered,
    trace (inspect c i ata w) = rendered ++ [EvLog EmptyString] /\
    logs rendered = render i ata (snd (inspection c ata w)) /\
    queried rendered = [ata].
Proof.
  unfold inspection.
  destruct (inspect_casesP c ata w)
    as [w1 H|w1 e H|w1 info w2 t H1 H2|w1 info w2 e H1 H2].
  - rewrite (inspect_absent _ i _ _ H), H.
    now exists [EvGetAccountInfo ata (Ok None); EvLog (line_not_found i ata)].
  - rewrite (inspect_unreachable _ i _ _ H), H. destruct e as [m].
    now exists [EvGetAccountInfo ata (Throw (mkError m));
                EvLog (line_error i ata (mkError m))].
  - rewrite (inspect_found _ i _ _ H1 H2), H1, H2.
    now exists [EvGetAccountInfo ata (Ok (Some info)); EvGetAccount ata (Ok t);
                EvLog (line_found i ata); EvLog (line_mint t);
                EvLog (line_balance t); EvLog (line_owner t)].
  - rewrite (inspect_undecodable _ i _ _ H1 H2), H1, H2. destruct e as [m].
    now exists [EvGetAccountInfo ata (Ok (Some info));
                EvGetAccount ata (Throw (mkError m));
                EvLog (line_error i ata (mkError m))].
Qed.

(** C7.  In the loop, what is done for the member at position [i] is its
    queries and the rendering of its result (found, not found, or error,
    whichever branch was taken), none of whose lines is empty; then one
    empty line is printed; and only then does the loop go on with the
    member at position [i + 1], in the world the lookups left.  So
    exactly one blank line stands between the rendered result of a
    member and everything done for the next. *)
Theorem one_separator_between_addresses
  (c : Connection P) (i : nat) (id : string) (ata : PK)
  (ids : list string) (w : World P) :
  parses id ata ->
  exists rendered,
    for_loop c i (id :: ids) w =
      mkRun (final (for_loop c (S i) ids (fst (inspection c ata w))))
            (rendered ++ EvLog EmptyString
               :: trace (for_loop c (S i) ids (fst (inspection c ata w))))
            (value (for_loop c (S i) ids (fst (inspection c ata w)))) /\
    queried rendered = [ata] /\
    logs rendered = render i ata (snd (inspection c ata w)) /\
    filter is_blank (logs rendered) = [].
Proof.
  intros Hp.
  destruct (inspect_rendered_then_separator c i ata w) as (rendered & T & L & Q).
  exists rendered. repeat split.
  - rewrite (for_loop_cons_ok c i ids w Hp). cbn zeta.
    rewrite inspect_final, T, <- app_assoc. reflexivity.
  - exact Q.
  - exact L.
  - rewrite L. apply render_not_blank.
Qed.

(** C8.  The events of a run are the header followed by one group of
    events per processed address, the groups in list order and none
    interleaved with another.  Inside a group the existence query comes
    first, and a decode query appears only straight after an existence
    query that answered with an account.  Cutting the list at any
    position, the run is the run over the addresses before the cut,
    carried to completion, followed by the loop over the addresses from
    the cut on: nothing is issued for a later address until the queries
    and the output of every earlier one are done. *)
Theorem strictly_sequential
  (c : Connection P) (before after : list string) (w : World P) :
  (exists blocks,
     trace (checkATA c (before ++ after) w) =
       EvLog line_header :: concat blocks /\
     Forall2 sequential_block (parsed_prefix (before ++ after)) blocks) /\
  checkATA c (before ++ after) w =
    (checkATA c before ;; for_loop c (length before) after) w.
Proof.
  split.
  - destruct (for_loop_blocks c 0 (before ++ after) w) as (bs & E & F).
    exists bs. split; [|exact F].
    rewrite checkATA_unfold. simpl. now rewrite E.
  - unfold checkATA. rewrite bind_assoc.
    apply bind_ext. intros _ w1. now rewrite for_loop_app.
Qed.

(** C9.  When the existence query itself throws for the address at
    position [i], the same handler catches it: the error line with the
    message is printed, then the separator, and the loop goes on with
    position [i + 1] from the world the failed query left. *)
Theorem existence_query_fault_is_caught
  (c : Connection P) (i : nat) (id : string) (ata : PK)
  (ids : list string) (w w1 : World P) (e : JsError) :
  parses id ata ->
  getAccountInfo P c ata w = (w1, Throw e) ->
  for_loop c i (id :: ids) w =
    mkRun (final (for_loop c (S i) ids w1))
          (EvGetAccountInfo ata (Throw e)
             :: EvLog (line_error i ata e)
             :: EvLog EmptyString
             :: trace (for_loop c (S i) ids w1))
          (value (for_loop c (S i) ids w1)) /\
  occurs_in (message e) (line_error i ata e).
Proof.
  intros Hp H. split.
  - rewrite (for_loop_cons_ok c i ids w Hp). cbn zeta.
    now rewrite (inspect_unreachable _ i _ _ H).
  - unfold line_error. find_substring.
Qed.

(** C10.  When the member at some position does not construct as a key,
    the error leaves the loop: the run is the run over the members before
    it and nothing more (no block, no separator, no query for that member
    or any later one), [checkATA] completes with that error, and the
    handler of line 40 passes it to [console.error]. *)
Theorem malformed_identifier_escapes
  (c : Connection P) (before after : list string) (pks : list PK)
  (id : string) (e : JsError) (w : World P) :
  new_Connection P ENDPOINT "confirmed" = Ok c ->
  Forall2 parses before pks ->
  new_PublicKey P id = Throw e ->
  checkATA c (before ++ id :: after) w =
    mkRun (final (checkATA c before w)) (trace (checkATA c before w)) (Throw e) /\
  value (checkATA c before w) = Ok tt /\
  queried (trace (checkATA c (before ++ id :: after) w)) = pks /\
  main (before ++ id :: after) w =
    mkProcess (final (checkATA c before w))
              (trace (checkATA c before w) ++ [EvError e]) 0.
Proof.
  intros Hc F H.
  assert (E : checkATA c (before ++ id :: after) w =
              mkRun (final (checkATA c before w))
                    (trace (checkATA c before w)) (Throw e)).
  { rewrite !checkATA_unfold. cbn zeta.
    now rewrite (for_loop_stops c 0 id after w F H). }
  split; [exact E|]. split; [|split].
  - rewrite checkATA_unfold. simpl.
    now rewrite for_loop_value, (first_malformed_all F).
  - rewrite E. cbn [trace]. rewrite checkATA_unfold. simpl.
    now rewrite for_loop_queried, (parsed_prefix_all F).
  - unfold main. rewrite Hc, E. reflexivity.
Qed.

(** ** Accounting for a run *)

Section Accounting.

Variable c : Connection P.

(** Whatever holds of the empty trace and survives putting the events of
    one address in front holds of every trace of the loop. *)
Lemma for_loop_trace_ind (Q : list Event -> Prop) :
  Q [] ->
  (forall i ata w t, Q t -> Q (trace (inspect c i ata w) ++ t)) ->
  forall i ids w, Q (trace (for_loop c i ids w)).
Proof.
  intros Q0 Qstep i ids. revert i.
  induction ids as [|id ids IH]; intros i w.
  - exact Q0.
  - destruct (new_PublicKey P id) as [ata|e] eqn:H.
    + rewrite (for_loop_cons_ok c i ids w H). simpl. apply Qstep, IH.
    + rewrite (for_loop_cons_throw c i id ids w H). exact Q0.
Qed.

Ltac four_cases c i ata w :=
  let H := fresh "H" in
  let H1 := fresh "H1" in
  let H2 := fresh "H2" in
  destruct (inspect_casesP c ata w)
    as [? H|? ? H|? ? ? ? H1 H2|? ? ? ? H1 H2];
  [ rewrite (inspect_absent c i ata w H)
  | rewrite (inspect_unreachable c i ata w H)
  | rewrite (inspect_found c i ata w H1 H2)
  | rewrite (inspect_undecodable c i ata w H1 H2) ].

Lemma inspect_decoded i ata w :
  decoded (trace (inspect c i ata w)) = present (trace (inspect c i ata w)).
Proof. four_cases c i ata w; reflexivity. Qed.

Lemma inspect_reported i ata w : reported (trace (inspect c i ata w)) = [].
Proof. four_cases c i ata w; reflexivity. Qed.

Lemma inspect_line_count i ata w :
  length (logs (trace (inspect c i ata w))) =
  2 + 3 * length (accounts (trace (inspect c i ata w))).
Proof. four_cases c i ata w; reflexivity. Qed.

Lemma inspect_blank i ata w :
  filter is_blank (logs (trace (inspect c i ata w))) = [EmptyString].
Proof. four_cases c i ata w; reflexivity. Qed.

Lemma inspect_header i ata w :
  filter is_header (logs (trace (inspect c i ata w))) = [].
Proof. four_cases c i ata w; reflexivity. Qed.

Lemma inspect_detail_lines i ata w :
  let t := trace (inspect c i ata w) in
  filter is_mint_line (logs t) = map line_mint (accounts t) /\
  filter is_balance_line (logs t) = map line_balance (accounts t) /\
  filter is_owner_line (logs t) = map line_owner (accounts t).
Proof.
  cbn zeta. four_cases c i ata w; try (repeat split; reflexivity).
  destruct (found_line_kind i ata) as (F1 & F2 & F3).
  destruct (mint_line_only_mint t) as (M2 & M3).
  destruct (balance_line_only_balance t) as (B1 & B3).
  destruct (owner_line_only_owner t) as (O1 & O2).
  cbn [logs trace flat_map app filter accounts map].
  rewrite F1, F2, F3, M2, M3, B1, B3, O1, O2.
  rewrite mint_line_is_mint, balance_line_is_balance, owner_line_is_owner.
  repeat split.
Qed.

Lemma present_le_queried (t : list Event) :
  length (present t) <= length (queried t).
Proof.
  induction t as [|ev t IH]; simpl; [lia|].
  destruct ev as [pk [[info|]|e]|pk a|l|e|e]; simpl; lia.
Qed.

Lemma parsed_prefix_length ids : length (parsed_prefix ids) <= length ids.
Proof.
  induction ids as [|id ids IH]; simpl; [lia|].
  destruct (new_PublicKey P id); simpl; lia.
Qed.

Lemma checkATA_value ids w :
  value (checkATA c ids w) =
  match first_malformed ids with None => Ok tt | Some e => Throw e end.
Proof. rewrite checkATA_unfold. simpl. apply for_loop_value. Qed.

Lemma inspection_stateless pk w w' :
  stateless_ledger c ->
  snd (inspection c pk w) = snd (inspection c pk w').
Proof.
  intros [S1 S2]. unfold inspection.
  specialize (S1 pk w w').
  destruct (getAccountInfo P c pk w) as [w1 a].
  destruct (getAccountInfo P c pk w') as [w1' a'].
  simpl in S1. subst a'.
  destruct a as [[info|]|e]; try reflexivity.
  specialize (S2 pk w1 w1').
  destruct (getAccount P c pk w1) as [w2 b].
  destruct (getAccount P c pk w1') as [w2' b'].
  simpl in S2. subst b'. now destruct b.
Qed.

Lemma inspections_alone i pks w w0 :
  stateless_ledger c ->
  inspections c i pks w = inspected_alone c i pks w0.
Proof.
  intros S. revert i w.
  induction pks as [|pk pks IH]; intros i w.
  - reflexivity.
  - rewrite inspections_cons. simpl. f_equal.
    + f_equal. now apply inspection_stateless.
    + apply IH.
Qed.

End Accounting.

(** Digits, and what follows them. *)

Lemma string_of_uint_digits (d : Decimal.uint) :
  all_digits (NilEmpty.string_of_uint d) = true.
Proof. induction d; simpl; auto. Qed.

Lemma digits_then_colon (d d' x y : string) :
  all_digits d = true -> all_digits d' = true ->
  (d ++ String ":" x = d' ++ String ":" y)%string -> d = d'.
Proof.
  revert d'. induction d as [|ch d IH]; intros [|ch' d'] D D' E; simpl in *.
  - reflexivity.
  - injection E as E1 _. subst ch'. discriminate D'.
  - injection E as E1 _. subst ch. discriminate D.
  - injection E as E1 E2. subst ch'.
    apply andb_prop in D, D'. f_equal. now apply IH.
Qed.

Lemma nat_toString_inj (m n : nat) : nat_toString m = nat_toString n -> m = n.
Proof.
  unfold nat_toString. intros E.
  apply (f_equal NilEmpty.uint_of_string) in E.
  rewrite !NilEmpty.usu in E. injection E as E.
  apply (f_equal Nat.of_uint) in E.
  now rewrite !DecimalNat.Unsigned.of_to in E.
Qed.

Lemma numbered_lines_same_position (i j : nat) (x y : string) :
  (nat_toString (i + 1) ++ String ":" x
   = nat_toString (j + 1) ++ String ":" y)%string -> i = j.
Proof.
  intros E.
  apply digits_then_colon in E; try apply string_of_uint_digits.
  apply nat_toString_inj in E. lia.
Qed.

(** ** Further properties of the script *)

(** X1.  Once the connection exists, [console.error] is called at most
    once in a run: not at all when every member of the list constructs
    as a key, and otherwise once, with the error of the first member
    that does not.  What is printed with [console.log] is what
    [checkATA] printed. *)
Theorem console_error_reports_first_malformed
  (c : Connection P) (ids : list string) (w : World P) :
  new_Connection P ENDPOINT "confirmed" = Ok c ->
  reported (p_trace (main ids w)) =
    match first_malformed ids with Some e => [e] | None => [] end /\
  logs (p_trace (main ids w)) = logs (trace (checkATA c ids w)).
Proof.
  intros Hc.
  assert (R : reported (trace (checkATA c ids w)) = []).
  { rewrite checkATA_unfold. simpl.
    apply for_loop_trace_ind; [reflexivity|].
    intros i ata w' t Ht. unfold reported. rewrite flat_map_app.
    fold (reported t). fold (reported (trace (inspect c i ata w'))).
    now rewrite inspect_reported, Ht. }
  unfold main. rewrite Hc. cbn zeta. rewrite checkATA_value.
  destruct (first_malformed ids) as [e|]; cbn [p_trace].
  - unfold reported, logs. rewrite !flat_map_app.
    fold (reported (trace (checkATA c ids w))). rewrite R.
    split; [reflexivity | apply app_nil_r].
  - now rewrite R.
Qed.

(** X2.  The endpoint written on line 6 is a Markdown link, not a URL.
    With a client library whose [Connection] constructor refuses an
    endpoint that does not open with [http:] or [https:], the script
    stops on line 6 whatever the address list: the exit status is 1,
    nothing is printed, no query is made and the world is untouched. *)
Theorem malformed_endpoint_stops_script (ids : list string) (w : World P) :
  (forall endpoint commitment,
     prefix "http:" endpoint = false ->
     prefix "https:" endpoint = false ->
     exists e, new_Connection P endpoint commitment = Throw e) ->
  exit_code (main ids w) = 1 /\
  logs (p_trace (main ids w)) = [] /\
  queried (p_trace (main ids w)) = [] /\
  p_final (main ids w) = w.
Proof.
  intros Strict.
  destruct (Strict ENDPOINT "confirmed" eq_refl eq_refl) as [e He].
  unfold main. rewrite He. now repeat split.
Qed.

(** X3.  Every run of [checkATA] starts by printing the header, also for
    the empty list and for a list whose first member is malformed, and
    no other printed line is the header. *)
Theorem header_printed_once_first
  (c : Connection P) (ids : list string) (w : World P) :
  (exists rest, trace (checkATA c ids w) = EvLog line_header :: rest) /\
  filter is_header (logs (trace (checkATA c ids w))) = [line_header].
Proof.
  rewrite checkATA_unfold. cbn zeta. cbn [trace]. split.
  - now exists (trace (for_loop c 0 ids w)).
  - cbn [logs flat_map app filter].
    fold (logs (trace (for_loop c 0 ids w))).
    replace (is_header line_header) with true
      by (symmetry; apply String.eqb_refl).
    f_equal. apply for_loop_trace_ind; [reflexivity|].
    intros i ata w' t Ht. unfold logs. rewrite flat_map_app, filter_app.
    fold (logs t). fold (logs (trace (inspect c i ata w'))).
    now rewrite inspect_header, Ht.
Qed.

(** X4.  The queries a run makes: a decode query is made for exactly the
    addresses whose existence query answered with an account, in the
    same order; there is at most one existence query per member of the
    list, and never more decode queries than existence queries. *)
Theorem rpc_budget (c : Connection P) (ids : list string) (w : World P) :
  let t := trace (checkATA c ids w) in
  decoded t = present t /\
  length (queried t) <= length ids /\
  length (decoded t) <= length (queried t).
Proof.
  cbn zeta.
  assert (D : decoded (trace (checkATA c ids w)) =
              present (trace (checkATA c ids w))).
  { rewrite checkATA_unfold. simpl.
    apply for_loop_trace_ind; [reflexivity|].
    intros i ata w' t Ht. unfold decoded, present. rewrite !flat_map_app.
    fold (decoded t). fold (present t).
    fold (decoded (trace (inspect c i ata w'))).
    fold (present (trace (inspect c i ata w'))).
    now rewrite inspect_decoded, Ht. }
  split; [exact D|]. split.
  - rewrite checkATA_unfold. simpl. rewrite for_loop_queried.
    apply parsed_prefix_length.
  - rewrite D. apply present_le_queried.
Qed.

(** X5.  The number of lines a run prints: the header, two lines for
    every address looked up, and three more for every account that
    decoded. *)
Theorem printed_line_count
  (c : Connection P) (ids : list string) (w : World P) :
  let t := trace (checkATA c ids w) in
  length (logs t) = 1 + 2 * length (queried t) + 3 * length (accounts t).
Proof.
  cbn zeta. rewrite checkATA_unfold. cbn zeta. cbn [trace].
  cbn [logs queried accounts flat_map app length].
  fold (logs (trace (for_loop c 0 ids w))).
  fold (queried (trace (for_loop c 0 ids w))).
  fold (accounts (trace (for_loop c 0 ids w))).
  cut (length (logs (trace (for_loop c 0 ids w))) =
       2 * length (queried (trace (for_loop c 0 ids w)))
       + 3 * length (accounts (trace (for_loop c 0 ids w)))); [lia|].
  apply for_loop_trace_ind; [reflexivity|].
  intros i ata w' t Ht. unfold logs, queried, accounts.
  rewrite !flat_map_app, !length_app.
  fold (logs t). fold (queried t). fold (accounts t).
  fold (logs (trace (inspect c i ata w'))).
  fold (queried (trace (inspect c i ata w'))).
  fold (accounts (trace (inspect c i ata w'))).
  rewrite inspect_line_count, inspect_queried. simpl length. lia.
Qed.

(** X6.  A run prints as many empty lines as it looked up addresses: the
    separators count the addresses worked on. *)
Theorem separators_count_addresses
  (c : Connection P) (ids : list string) (w : World P) :
  let t := trace (checkATA c ids w) in
  length (filter is_blank (logs t)) = length (queried t).
Proof.
  cbn zeta. rewrite checkATA_unfold. cbn zeta. cbn [trace].
  cbn [logs queried flat_map app filter].
  fold (logs (trace (for_loop c 0 ids w))).
  fold (queried (trace (for_loop c 0 ids w))).
  replace (is_blank line_header) with false by reflexivity.
  apply for_loop_trace_ind; [reflexivity|].
  intros i ata w' t Ht. unfold logs, queried.
  rewrite !flat_map_app, filter_app, !length_app.
  fold (logs t). fold (queried t).
  fold (logs (trace (inspect c i ata w'))).
  fold (queried (trace (inspect c i ata w'))).
  now rewrite inspect_blank, inspect_queried, Ht.
Qed.

(** X7.  Over a whole run, the mint lines printed are exactly the mint
    lines of the accounts that decoded, in order, and likewise the
    balance lines and the owner lines: no detail line is printed for an
    address that is absent or in error, and none is missing for an
    account that decoded. *)
Theorem detail_lines_match_accounts
  (c : Connection P) (ids : list string) (w : World P) :
  let t := trace (checkATA c ids w) in
  filter is_mint_line (logs t) = map line_mint (accounts t) /\
  filter is_balance_line (logs t) = map line_balance (accounts t) /\
  filter is_owner_line (logs t) = map line_owner (accounts t).
Proof.
  cbn zeta. rewrite checkATA_unfold. cbn zeta. cbn [trace].
  cbn [logs accounts flat_map app filter].
  fold (logs (trace (for_loop c 0 ids w))).
  fold (accounts (trace (for_loop c 0 ids w))).
  replace (is_mint_line line_header) with false by reflexivity.
  replace (is_balance_line line_header) with false by reflexivity.
  replace (is_owner_line line_header) with false by reflexivity.
  apply for_loop_trace_ind; [now repeat split|].
  intros i ata w' t (Hm & Hb & Ho).
  destruct (inspect_detail_lines c i ata w') as (Im & Ib & Io).
  unfold logs, accounts.
  rewrite !flat_map_app, !filter_app, !map_app.
  fold (logs t). fold (accounts t).
  fold (logs (trace (inspect c i ata w'))).
  fold (accounts (trace (inspect c i ata w'))).
  now rewrite Hm, Hb, Ho, Im, Ib, Io.
Qed.

(** X8.  Adding addresses at the end of the list changes nothing of what
    is done for the addresses already there: the events of the run over
    the longer list begin with the events of the run over the shorter
    one. *)
Theorem earlier_output_unchanged_by_appending
  (c : Connection P) (before after : list string) (w : World P) :
  exists rest,
    trace (checkATA c (before ++ after) w) =
    trace (checkATA c before w) ++ rest.
Proof.
  rewrite !checkATA_unfold. cbn zeta. cbn [trace].
  rewrite for_loop_app. unfold bind at 1.
  destruct (value (for_loop c 0 before w)) as [[]|e].
  - now exists (trace (for_loop c (0 + length before) after
                         (final (for_loop c 0 before w)))).
  - exists []. cbn [trace]. now rewrite app_nil_r.
Qed.

(** X9.  The output does not tell which stage failed: a fault of the
    existence query and a fault of the decode query with the same
    message print the same lines for the address. *)
Theorem fault_stage_not_distinguished
  (c : Connection P) (i : nat) (ata : PK) (w w1 w' w1' w2' : World P)
  (info : AccountInfo P) (e e' : JsError) :
  getAccountInfo P c ata w = (w1, Throw e) ->
  getAccountInfo P c ata w' = (w1', Ok (Some info)) ->
  getAccount P c ata w1' = (w2', Throw e') ->
  message e = message e' ->
  logs (trace (inspect c i ata w)) = logs (trace (inspect c i ata w')).
Proof.
  intros H H1 H2 Hm.
  rewrite (inspect_unreachable c i ata w H).
  rewrite (inspect_undecodable c i ata w' H1 H2).
  cbn [logs trace flat_map app]. unfold line_error. now rewrite Hm.
Qed.

(** X10.  The first line of a block identifies it: two blocks with the
    same first line are for the same position of the list and have the
    same kind of outcome (found, not found, or error). *)
Theorem status_line_identifies
  (i j : nat) (ata ata' : PK) (r r' : InspectionResult) :
  hd_error (render i ata r) = hd_error (render j ata' r') ->
  i = j /\ kind r = kind r'.
Proof.
  destruct r as [t| |m], r' as [t'| |m']; cbn [render hd_error kind];
    intros E; injection E as E;
    unfold line_found, line_not_found, line_error in E;
    cbn [append] in E; try discriminate E;
    (split; [|reflexivity]);
    repeat match type of E with
           | String _ _ = String _ _ => injection E as E
           end;
    exact (numbered_lines_same_position _ _ _ _ E).
Qed.

(** X11.  Two accounts that print the same balance line hold the same
    amount: the printed balance determines the amount, digit for
    digit. *)
Theorem balance_line_injective (t t' : Account PK) :
  line_balance t = line_balance t' -> amount t = amount t'.
Proof.
  unfold line_balance. cbn [append]. intros E.
  repeat match type of E with
         | String _ _ = String _ _ => injection E as E
         end.
  now apply bigint_toString_inj.
Qed.

(** X12.  When the ledger answers a query about an address the same way
    whatever came before, the block printed for an address of a
    well-formed list is the block it would get if it were looked up on
    its own: the result does not depend on the other members of the
    list or on their order, only the number shown does. *)
Theorem stateless_ledger_independent_results
  (c : Connection P) (ids : list string) (pks : list PK) (w w0 : World P) :
  stateless_ledger c ->
  Forall2 parses ids pks ->
  logs (trace (checkATA c ids w)) =
    line_header :: flat_map render_block (inspected_alone c 0 pks w0).
Proof.
  intros S F. rewrite checkATA_unfold. simpl. f_equal.
  rewrite for_loop_logs, (parsed_prefix_all F).
  now rewrite (inspections_alone 0 pks w w0 S).
Qed.

End Script.

(** ** Runs on the test ledger *)

Example scenario_output :
  let p := main Mock.platform scenario 0 in
  logs (p_trace p) =
    [ "🔍 Проверка Associated Token Accounts...";
      "✅ ATA 1: Found1";
      "   Mint: Mint9";
      "   Balance: 18446744073709551615";
      "   Owner: Owner8";
      EmptyString;
      "❌ ATA 2: Missing2 - не найден";
      EmptyString;
      "⚠️ ATA 3: Broken3 - ошибка: TokenInvalidAccountOwnerError";
      EmptyString;
      "⚠️ ATA 4: Down4 - ошибка: fetch failed";
      EmptyString ] /\
  exit_code p = 0 /\
  p_final p = 6.
Proof. vm_compute. repeat split. Qed.

Example malformed_run :
  main Mock.platform ["Found1"; malformed; "Missing2"] 0 =
  mkProcess (P := Mock.platform) 2
    [ EvLog Mock.platform line_header;
      EvGetAccountInfo Mock.platform "Found1" (Ok (Some tt));
      EvGetAccount Mock.platform "Found1" (Ok Mock.test_account);
      EvLog Mock.platform "✅ ATA 1: Found1";
      EvLog Mock.platform "   Mint: Mint9";
      EvLog Mock.platform "   Balance: 18446744073709551615";
      EvLog Mock.platform "   Owner: Owner8";
      EvLog Mock.platform EmptyString;
      EvError Mock.platform (mkError "Non-base58 character") ]
    0.
Proof. reflexivity. Qed.

Lemma scenario_parses : Forall2 (parses Mock.platform) scenario scenario.
Proof. repeat constructor. Defined.

(** C1, as worded, fails: a list with a malformed member is a fault
    outside the per-address [try], yet the process ends with status 0. *)
Lemma exit_zero_despite_outer_fault :
  ~ exit_reflects_outer_fault Mock.platform [malformed] 0.
Proof.
  intros [_ H].
  assert (O : outer_fault Mock.platform [malformed]).
  { right. now exists (mkError "Non-base58 character"). }
  apply H in O. now apply O.
Qed.

(** C2, as worded, fails: the error thrown while constructing the key of
    the first member ends the loop, and the second member, a good
    address, is never looked up. *)
Lemma key_construction_fault_aborts :
  ~ no_fault_aborts Mock.platform tt [malformed; "Found1"] 0.
Proof. intros [H _]. discriminate H. Qed.

Lemma query_faults_never_abort_witness :
  Forall2 (parses Mock.platform) scenario scenario /\
  (no_fault_aborts Mock.platform tt scenario 0 /\
   queried (trace (checkATA Mock.platform tt scenario 0)) = scenario /\
   map message (faults (trace (checkATA Mock.platform tt scenario 0))) =
     error_messages (inspections Mock.platform tt 0 scenario 0) /\
   logs (trace (checkATA Mock.platform tt scenario 0)) =
     line_header
       :: flat_map (@render_block Mock.platform)
            (inspections Mock.platform tt 0 scenario 0)).
Proof.
  split.
  - exact scenario_parses.
  - exact (@query_faults_never_abort Mock.platform tt scenario scenario 0
             scenario_parses).
Defined.

(** C3, as worded, fails: with a malformed member in second place the
    list has three members but only one of them gets a result. *)
Lemma malformed_member_not_processed :
  ~ processed_once_in_order Mock.platform tt ["Found1"; malformed; "Missing2"] 0.
Proof.
  intros (results & L & _ & _ & Q & _).
  apply (f_equal (@length _)) in Q.
  rewrite length_map, L in Q. discriminate Q.
Qed.

Lemma scenario_members_parse :
  forall id, In id scenario -> exists pk, parses Mock.platform id pk.
Proof.
  intros id Hin. exists id.
  repeat (destruct Hin as [<-|Hin]; [reflexivity|]). contradiction.
Defined.

Lemma well_formed_list_processed_once_in_order_witness :
  (forall id, In id scenario -> exists pk, parses Mock.platform id pk) /\
  processed_once_in_order Mock.platform tt scenario 0.
Proof.
  split.
  - exact scenario_members_parse.
  - exact (@well_formed_list_processed_once_in_order Mock.platform tt scenario 0
             scenario_members_parse).
Defined.

Lemma found_block_rendering_witness :
  getAccountInfo Mock.platform tt "Found1" 0 = (1, Ok (Some tt)) /\
  getAccount Mock.platform tt "Found1" 1 = (2, Ok Mock.test_account) /\
  logs (trace (inspect Mock.platform tt 0 "Found1" 0)) =
    [ "✅ ATA 1: Found1"; "   Mint: Mint9";
      "   Balance: 18446744073709551615"; "   Owner: Owner8"; EmptyString ].
Proof.
  split; [reflexivity|]. split; [reflexivity|].
  exact (proj1 (proj2
    (@found_block_rendering Mock.platform tt 0 "Found1" 0 1 2 tt Mock.test_account
       eq_refl eq_refl))).
Defined.

Lemma absent_block_rendering_witness :
  getAccountInfo Mock.platform tt "Missing2" 0 = (1, Ok None) /\
  logs (trace (inspect Mock.platform tt 1 "Missing2" 0)) =
    [ "❌ ATA 2: Missing2 - не найден"; EmptyString ].
Proof.
  split; [reflexivity|].
  exact (proj1 (proj2
    (@absent_block_rendering Mock.platform tt 1 "Missing2" 0 1 eq_refl))).
Defined.

Lemma undecodable_block_rendering_witness :
  getAccountInfo Mock.platform tt "Broken3" 0 = (1, Ok (Some tt)) /\
  getAccount Mock.platform tt "Broken3" 1 =
    (2, Throw (mkError "TokenInvalidAccountOwnerError")) /\
  logs (trace (inspect Mock.platform tt 2 "Broken3" 0)) =
    [ "⚠️ ATA 3: Broken3 - ошибка: TokenInvalidAccountOwnerError";
      EmptyString ].
Proof.
  split; [reflexivity|]. split; [reflexivity|].
  exact (proj1 (proj2
    (@undecodable_block_rendering Mock.platform tt 2 "Broken3" 0 1 2 tt
       (mkError "TokenInvalidAccountOwnerError") eq_refl eq_refl))).
Defined.

Lemma existence_query_fault_is_caught_witness :
  parses Mock.platform "Down4" "Down4" /\
  getAccountInfo Mock.platform tt "Down4" 0 =
    (1, Throw (mkError "fetch failed")) /\
  logs (trace (for_loop Mock.platform tt 0 ["Down4"; "Missing2"] 0)) =
    [ "⚠️ ATA 1: Down4 - ошибка: fetch failed"; EmptyString;
      "❌ ATA 2: Missing2 - не найден"; EmptyString ].
Proof.
  split; [reflexivity|]. split; [reflexivity|].
  rewrite (proj1
    (@existence_query_fault_is_caught Mock.platform tt 0 "Down4" "Down4"
       ["Missing2"] 0 1 (mkError "fetch failed") eq_refl eq_refl)).
  reflexivity.
Defined.

Lemma one_separator_between_addresses_witness :
  parses Mock.platform "Down4" "Down4" /\
  exists rendered,
    for_loop Mock.platform tt 0 ["Down4"; "Missing2"] 0 =
      mkRun (final (for_loop Mock.platform tt 1 ["Missing2"]
                      (fst (inspection Mock.platform tt "Down4" 0))))
            (rendered ++ EvLog Mock.platform EmptyString
               :: trace (for_loop Mock.platform tt 1 ["Missing2"]
                           (fst (inspection Mock.platform tt "Down4" 0))))
            (value (for_loop Mock.platform tt 1 ["Missing2"]
                      (fst (inspection Mock.platform tt "Down4" 0)))) /\
    queried rendered = ["Down4"] /\
    logs rendered =
      render (P := Mock.platform) 0 "Down4"
        (snd (inspection Mock.platform tt "Down4" 0)) /\
    filter is_blank (logs rendered) = [].
Proof.
  split; [reflexivity|].
  exact (@one_separator_between_addresses Mock.platform tt 0 "Down4" "Down4"
           ["Missing2"] 0 eq_refl).
Defined.

Lemma malformed_identifier_escapes_witness :
  new_Connection Mock.platform ENDPOINT "confirmed" = Ok tt /\
  Forall2 (parses Mock.platform) ["Found1"] ["Found1"] /\
  new_PublicKey Mock.platform malformed =
    Throw (mkError "Non-base58 character") /\
  exit_code (main Mock.platform (["Found1"] ++ malformed :: ["Missing2"]) 0) = 0.
Proof.
  assert (F : Forall2 (parses Mock.platform) ["Found1"] ["Found1"])
    by (repeat constructor).
  split; [reflexivity|]. split; [exact F|]. split; [reflexivity|].
  rewrite (proj2 (proj2 (proj2
    (@malformed_identifier_escapes Mock.platform tt ["Found1"] ["Missing2"]
       ["Found1"] malformed (mkError "Non-base58 character") 0
       eq_refl F eq_refl)))).
  reflexivity.
Defined.

(** ** Further runs on the test ledgers *)

Lemma console_error_reports_first_malformed_witness :
  new_Connection Mock.platform ENDPOINT "confirmed" = Ok tt /\
  reported (p_trace (main Mock.platform ["Found1"; malformed; "Missing2"; "0"] 0))
    = [mkError "Non-base58 character"].
Proof.
  split; [reflexivity|].
  exact (proj1
    (@console_error_reports_first_malformed Mock.platform tt
       ["Found1"; malformed; "Missing2"; "0"] 0 eq_refl)).
Defined.

Lemma strict_platform_refuses :
  forall endpoint commitment,
    prefix "http:" endpoint = false ->
    prefix "https:" endpoint = false ->
    exists e, new_Connection strict_platform endpoint commitment = Throw e.
Proof.
  intros endpoint commitment H1 H2.
  exists (mkError "Endpoint URL must start with `http:` or `https:`.").
  cbn [new_Connection strict_platform]. unfold strict_new_Connection.
  rewrite H1, H2. reflexivity.
Defined.

Lemma malformed_endpoint_stops_script_witness :
  (forall endpoint commitment,
     prefix "http:" endpoint = false ->
     prefix "https:" endpoint = false ->
     exists e, new_Connection strict_platform endpoint commitment = Throw e) /\
  exit_code (main strict_platform scenario 0) = 1.
Proof.
  split; [exact strict_platform_refuses|].
  exact (proj1
    (@malformed_endpoint_stops_script strict_platform scenario 0
       strict_platform_refuses)).
Defined.

Lemma fault_stage_not_distinguished_witness :
  getAccountInfo flaky_platform tt "Found1" 0 =
    (1, Throw (mkError "fetch failed")) /\
  getAccountInfo flaky_platform tt "Found1" 1 = (2, Ok (Some tt)) /\
  getAccount flaky_platform tt "Found1" 2 =
    (3, Throw (mkError "fetch failed")) /\
  logs (trace (inspect flaky_platform tt 0 "Found1" 0)) =
  logs (trace (inspect flaky_platform tt 0 "Found1" 1)).
Proof.
  split; [reflexivity|]. split; [reflexivity|]. split; [reflexivity|].
  exact (@fault_stage_not_distinguished flaky_platform tt 0 "Found1"
           0 1 1 2 3 tt (mkError "fetch failed") (mkError "fetch failed")
           eq_refl eq_refl eq_refl eq_refl).
Defined.

Lemma status_line_identifies_witness :
  hd_error (render (P := Mock.platform) 2 "Found1" (Found Mock.platform Mock.test_account))
  = hd_error (render (P := Mock.platform) 2 "Found1"
                (Found Mock.platform (mkAccount "MintX" "OwnerY" 5%N))) /\
  (2 = 2 /\
   kind (Found Mock.platform Mock.test_account) =
   kind (Found Mock.platform (mkAccount "MintX" "OwnerY" 5%N))).
Proof.
  split; [reflexivity|].
  exact (@status_line_identifies Mock.platform 2 2 "Found1" "Found1"
           (Found Mock.platform Mock.test_account)
           (Found Mock.platform (mkAccount "MintX" "OwnerY" 5%N)) eq_refl).
Defined.

Lemma balance_line_injective_witness :
  line_balance Mock.platform Mock.test_account =
  line_balance Mock.platform
    (mkAccount "MintX" "OwnerY" 18446744073709551615%N) /\
  amount Mock.test_account = 18446744073709551615%N.
Proof.
  split; [reflexivity|].
  exact (@balance_line_injective Mock.platform Mock.test_account
           (mkAccount "MintX" "OwnerY" 18446744073709551615%N) eq_refl).
Defined.

Lemma test_ledger_stateless : stateless_ledger Mock.platform tt.
Proof. split; intros pk w w'; reflexivity. Defined.

Lemma stateless_ledger_independent_results_witness :
  stateless_ledger Mock.platform tt /\
  Forall2 (parses Mock.platform) scenario scenario /\
  logs (trace (checkATA Mock.platform tt scenario 0)) =
    line_header
      :: flat_map (@render_block Mock.platform)
           (inspected_alone Mock.platform tt 0 scenario 100).
Proof.
  split; [exact test_ledger_stateless|]. split; [exact scenario_parses|].
  exact (@stateless_ledger_independent_results Mock.platform tt scenario
           scenario 0 100 test_ledger_stateless scenario_parses).
Defined.
